(** * PySimlink: lookup keys and metadata records of [containers.hpp]

    A shallow embedding of [src/pysimlink/c_files/include/containers.hpp]
    (namespace [PYSIMLINK]) and the properties of its lookup keys
    ([map_key_1s], [map_key_2s]), of the functors declared over them
    ([pair_hash], [Compare]) and of the metadata records ([DataType],
    [ModelParam], [BlockParam], [Signal], [ModelInfo]).

    Conventions of the embedding:
    - a [std::string] is a [string] (a sequence of 8-bit characters);
    - a pointer [const rtwCAPI_ModelMappingInfo *] is the address it holds,
      an integer; pointer comparison is comparison of addresses, the
      pointed-to structure is never read;
    - [std::size_t] and addresses are 64 bits wide;
    - a [std::vector<T>] is a [list T], [push_back] appends at the end;
    - a C++ object that is passed by reference lives in a store indexed by
      object locations, so that [this] and [other] may be the same object. *)

From Stdlib Require Import ZArith String Ascii List Lia Bool.
From stdpp Require Import base option gmap.
Import ListNotations.

Local Open Scope Z_scope.

(** ** Handles to the mapping-info table *)

(** The address held by a [const rtwCAPI_ModelMappingInfo *]. *)
Definition handle : Type := Z.

(** Width of [std::size_t] and of an address. *)
Definition size_t_bits : Z := 64.

Definition size_t_modulus : Z := 2 ^ size_t_bits.

(** Conversion of an integer to [std::size_t]. *)
Definition to_size_t (z : Z) : Z := z mod size_t_modulus.

(** ** The key classes *)

Module map_key_2s.

(** [class map_key_2s { std::string a; std::string b;
    const rtwCAPI_ModelMappingInfo *c; ... }] *)
Record t : Type := mk { a : string; b : string; c : handle }.

(** [bool operator==(const map_key_2s &other) const]:
    [if(c != other.c) return false;
     return ((a == other.a) && (b == other.b));] *)
Definition op_eq (this other : t) : bool :=
  if negb (c this =? c other) then false
  else String.eqb (a this) (a other) && String.eqb (b this) (b other).

End map_key_2s.

Module map_key_1s.

(** [class map_key_1s { std::string a;
    const rtwCAPI_ModelMappingInfo *c; ... }] *)
Record t : Type := mk { a : string; c : handle }.

(** [bool operator==(const map_key_1s &other) const]:
    [if(c != other.c) return false;
     return (a == other.a);] *)
Definition op_eq (this other : t) : bool :=
  if negb (c this =? c other) then false
  else String.eqb (a this) (a other).

End map_key_1s.

(** The relation that [operator==] decides. *)
Definition eq_1s (k1 k2 : map_key_1s.t) : Prop := map_key_1s.op_eq k1 k2 = true.
Definition eq_2s (k1 k2 : map_key_2s.t) : Prop := map_key_2s.op_eq k1 k2 = true.

(** ** The functors declared over the keys *)

(** Modelled from the spec: [pair_hash::operator()] is declared in
    [containers.hpp] and defined outside the header.  The spec asks that
    hashing combine the string content with the handle's identity value,
    an address-based hash: the hash of each name string (by
    [std::hash<std::string>], a library function taken as the parameter
    [hash_string]) and the address of the handle, both as [std::size_t],
    are combined by bitwise exclusive or.  The spec names no combination;
    exclusive or is one that fits its words. *)
Module pair_hash.
Section WithStringHash.

(** [std::hash<std::string>] *)
Variable hash_string : string -> Z.

(** The handle's identity value: its address as a [std::size_t]. *)
Definition hash_handle (p : handle) : Z := to_size_t p.

(** [std::size_t operator()(const map_key_2s &p) const] *)
Definition on_2s (p : map_key_2s.t) : Z :=
  Z.lxor (Z.lxor (to_size_t (hash_string (map_key_2s.a p)))
                 (to_size_t (hash_string (map_key_2s.b p))))
         (hash_handle (map_key_2s.c p)).

(** [std::size_t operator()(const map_key_1s &p) const] *)
Definition on_1s (p : map_key_1s.t) : Z :=
  Z.lxor (to_size_t (hash_string (map_key_1s.a p)))
         (hash_handle (map_key_1s.c p)).

End WithStringHash.
End pair_hash.

(** A string hash to run the functors on: the length of the string. *)
Definition length_hash (s : string) : Z := Z.of_nat (String.length s).

(** Modelled from the spec: [Compare::operator()] is declared in
    [containers.hpp] and defined outside the header.  The spec asks for a
    strict weak ordering, lexicographic over the fields that equality
    reads: the handle (by address) first, then the name string(s) in the
    order of [std::string]'s [operator<]. *)
Module Compare.

(** [bool operator()(const map_key_2s &lhs, const map_key_2s &rhs) const] *)
Definition on_2s (lhs rhs : map_key_2s.t) : bool :=
  if map_key_2s.c lhs <? map_key_2s.c rhs then true
  else if map_key_2s.c rhs <? map_key_2s.c lhs then false
  else if String.ltb (map_key_2s.a lhs) (map_key_2s.a rhs) then true
  else if String.ltb (map_key_2s.a rhs) (map_key_2s.a lhs) then false
  else String.ltb (map_key_2s.b lhs) (map_key_2s.b rhs).

(** [bool operator()(const map_key_1s &lhs, const map_key_1s &rhs) const] *)
Definition on_1s (lhs rhs : map_key_1s.t) : bool :=
  if map_key_1s.c lhs <? map_key_1s.c rhs then true
  else if map_key_1s.c rhs <? map_key_1s.c lhs then false
  else String.ltb (map_key_1s.a lhs) (map_key_1s.a rhs).

End Compare.

(** What the spec asks of an ordering functor [lt] next to an equality
    [eq]: a strict weak ordering whose equivalence is [eq]. *)
Record strict_weak_order {K : Type} (lt eq : K -> K -> bool) : Prop := {
  swo_irreflexive : forall k, lt k k = false;
  swo_asymmetric : forall k1 k2, lt k1 k2 = true -> lt k2 k1 = false;
  swo_transitive :
    forall k1 k2 k3, lt k1 k2 = true -> lt k2 k3 = true -> lt k1 k3 = true;
  swo_equivalence :
    forall k1 k2, lt k1 k2 = false /\ lt k2 k1 = false <-> eq k1 k2 = true
}.

(** ** Keys as objects in memory

    The operators take their operands by reference.  [Store.M T A] is a
    computation over a store of objects of class [T] that either fails
    (a reference to no object) or returns a value and the store it
    leaves. *)

Module Store.

Definition loc : Type := positive.

Section Objects.
Context {T : Type}.

Definition M (A : Type) : Type :=
  gmap loc T -> option (A * gmap loc T).

Definition ret {A : Type} (x : A) : M A := fun s => Some (x, s).

Definition bind {A B : Type} (m : M A) (f : A -> M B) : M B :=
  fun s => match m s with
           | Some (x, s') => f x s'
           | None => None
           end.

(** Read of the member [field] of the object at [l]. *)
Definition load {B : Type} (field : T -> B) (l : loc) : M B :=
  fun s => match s !! l with
           | Some o => Some (field o, s)
           | None => None
           end.

End Objects.

Arguments M : clear implicits.

End Store.

Declare Scope store_scope.
Delimit Scope store_scope with store.
Notation "'let*' x ':=' m 'in' k" := (Store.bind m (fun x => k))
  (at level 10, x name, m at level 100, k at level 200) : store_scope.

Module map_key_2s_ref.
Import map_key_2s.
Local Open Scope store_scope.

(** [operator==] on references: [c] of both operands is read first; the
    strings are read only when the handles agree, and [b] only when the
    [a]s agree ([&&] does not evaluate its right operand otherwise). *)
Definition op_eq (this other : Store.loc) : Store.M t bool :=
  let* c1 := Store.load c this in
  let* c2 := Store.load c other in
  if negb (c1 =? c2) then Store.ret false
  else
    let* a1 := Store.load a this in
    let* a2 := Store.load a other in
    if String.eqb a1 a2 then
      let* b1 := Store.load b this in
      let* b2 := Store.load b other in
      Store.ret (String.eqb b1 b2)
    else Store.ret false.

(** Modelled from the spec: the functors read their operands, which
    they take by [const] reference, and compute on the values. *)
Definition pair_hash (hash_string : string -> Z) (p : Store.loc)
  : Store.M t Z :=
  let* k := Store.load (fun o => o) p in
  Store.ret (pair_hash.on_2s hash_string k).

Definition Compare (lhs rhs : Store.loc) : Store.M t bool :=
  let* k1 := Store.load (fun o => o) lhs in
  let* k2 := Store.load (fun o => o) rhs in
  Store.ret (Compare.on_2s k1 k2).

End map_key_2s_ref.

Module map_key_1s_ref.
Import map_key_1s.
Local Open Scope store_scope.

(** [operator==] on references: [c] of both operands is read first, the
    strings only when the handles agree. *)
Definition op_eq (this other : Store.loc) : Store.M t bool :=
  let* c1 := Store.load c this in
  let* c2 := Store.load c other in
  if negb (c1 =? c2) then Store.ret false
  else
    let* a1 := Store.load a this in
    let* a2 := Store.load a other in
    Store.ret (String.eqb a1 a2).

(** Modelled from the spec: the functors read their operands, which
    they take by [const] reference, and compute on the values. *)
Definition pair_hash (hash_string : string -> Z) (p : Store.loc)
  : Store.M t Z :=
  let* k := Store.load (fun o => o) p in
  Store.ret (pair_hash.on_1s hash_string k).

Definition Compare (lhs rhs : Store.loc) : Store.M t bool :=
  let* k1 := Store.load (fun o => o) lhs in
  let* k2 := Store.load (fun o => o) rhs in
  Store.ret (Compare.on_1s k1 k2).

End map_key_1s_ref.

(** Stores to run the operators on: two keys of the spec's example (one
    name under two handles), and one [map_key_2s] object referred to
    twice. *)
Definition example_store_1s : gmap Store.loc map_key_1s.t :=
  <[1%positive := map_key_1s.mk "signal_x" 4096]>
    (<[2%positive := map_key_1s.mk "signal_x" 8192]> ∅).

Definition example_store_2s : gmap Store.loc map_key_2s.t :=
  <[1%positive := map_key_2s.mk "block" "gain" 4096]> ∅.

(** ** Comparisons with their cost

    A computation that returns, next to its value, the number of calls
    of [std::string]'s [operator==] made on the way, in the order of
    evaluation C++ prescribes. *)

Module Cost.

Definition M (A : Type) : Type := (A * nat)%type.

Definition ret {A : Type} (x : A) : M A := (x, 0%nat).

Definition bind {A B : Type} (m : M A) (f : A -> M B) : M B :=
  let (x, n) := m in
  let (y, k) := f x in
  (y, (n + k)%nat).

(** [x == y] on [std::string]: one call. *)
Definition string_eq (x y : string) : M bool := (String.eqb x y, 1%nat).

(** [p != q] on pointers: no call. *)
Definition ptr_ne (p q : handle) : M bool := ret (negb (p =? q)).

(** [e1 && e2]: [e2] is evaluated only when [e1] is true. *)
Definition and_then (e1 e2 : M bool) : M bool :=
  bind e1 (fun r => if r then e2 else ret false).

End Cost.

Module map_key_2s_counted.
Import map_key_2s.

(** [if(c != other.c) return false;
     return ((a == other.a) && (b == other.b));] *)
Definition op_eq (this other : t) : Cost.M bool :=
  Cost.bind (Cost.ptr_ne (c this) (c other)) (fun differ =>
  if differ then Cost.ret false
  else Cost.and_then (Cost.string_eq (a this) (a other))
                     (Cost.string_eq (b this) (b other))).

End map_key_2s_counted.

Module map_key_1s_counted.
Import map_key_1s.

(** [if(c != other.c) return false;
     return (a == other.a);] *)
Definition op_eq (this other : t) : Cost.M bool :=
  Cost.bind (Cost.ptr_ne (c this) (c other)) (fun differ =>
  if differ then Cost.ret false
  else Cost.string_eq (a this) (a other)).

End map_key_1s_counted.

(** ** The metadata records *)

(** Modelled from the spec: [rtwCAPI_Orientation] is an enumeration of the
    vendor header [rtw_capi.h]; the spec lists its tags as scalar, vector,
    row-major and column-major. *)
Inductive rtwCAPI_Orientation : Type :=
| rtwCAPI_SCALAR
| rtwCAPI_VECTOR
| rtwCAPI_MATRIX_ROW_MAJOR
| rtwCAPI_MATRIX_COL_MAJOR.

(** [struct DataType]; [ssize_t] is an integer. *)
Record DataType : Type := {
  cDataType : string;
  pythonType : string;
  dims : list Z;
  orientation : rtwCAPI_Orientation
}.

Module ModelParam.
(** [struct ModelParam] *)
Record t : Type := mk { model_param : string; data_type : DataType }.
End ModelParam.

Module BlockParam.
(** [struct BlockParam] *)
Record t : Type :=
  mk { block_name : string; block_param : string; data_type : DataType }.
End BlockParam.

Module Signal.
(** [struct Signal] *)
Record t : Type :=
  mk { block_name : string; signal_name : string; data_type : DataType }.
End Signal.

(** [struct ModelInfo] *)
Record ModelInfo : Type := {
  model_name : string;
  model_params : list ModelParam.t;
  block_params : list BlockParam.t;
  signals : list Signal.t
}.

(** [std::vector<T>::push_back] *)
Definition push_back {A : Type} (v : list A) (x : A) : list A := v ++ [x].

(** A vector filled from empty by one [push_back] per element of [xs]. *)
Definition filled {A : Type} (xs : list A) : list A :=
  fold_left push_back xs [].

(** [std::vector<T>::operator[]] within bounds; [None] out of bounds. *)
Definition at_index {A : Type} (v : list A) (i : nat) : option A :=
  nth_error v i.

(** The [DataType] values reachable from a [ModelInfo]. *)
Definition ModelInfo_data_types (mi : ModelInfo) : list DataType :=
  map ModelParam.data_type (model_params mi)
  ++ map BlockParam.data_type (block_params mi)
  ++ map Signal.data_type (signals mi).

(** ** Arithmetic of [std::size_t] *)

Lemma to_size_t_range (z : Z) : 0 <= to_size_t z < size_t_modulus.
Proof. unfold to_size_t. apply Z.mod_pos_bound. reflexivity. Qed.

Lemma lxor_size_t_range (x y : Z) :
  0 <= x < size_t_modulus -> 0 <= y < size_t_modulus ->
  0 <= Z.lxor x y < size_t_modulus.
Proof.
  intros [Hx0 Hx] [Hy0 Hy]. split.
  - apply Z.lxor_nonneg. tauto.
  - destruct (Z.eq_dec (Z.lxor x y) 0) as [-> | Hne]; [reflexivity |].
    assert (Hpos : 0 < Z.lxor x y).
    { assert (0 <= Z.lxor x y) by (apply Z.lxor_nonneg; tauto). lia. }
    unfold size_t_modulus in *.
    apply Z.log2_lt_pow2; [exact Hpos |].
    eapply Z.le_lt_trans; [apply Z.log2_lxor; assumption |].
    apply Z.max_lub_lt.
    + destruct (Z.eq_dec x 0) as [-> | ?]; [reflexivity |].
      apply Z.log2_lt_pow2; lia.
    + destruct (Z.eq_dec y 0) as [-> | ?]; [reflexivity |].
      apply Z.log2_lt_pow2; lia.
Qed.

(** ** The order of [std::string] *)

Lemma ascii_compare_refl (x : ascii) : Ascii.compare x x = Eq.
Proof. unfold Ascii.compare. apply N.compare_refl. Qed.

Lemma ascii_compare_lt_trans (x y z : ascii) :
  Ascii.compare x y = Lt -> Ascii.compare y z = Lt -> Ascii.compare x z = Lt.
Proof.
  unfold Ascii.compare. rewrite !N.compare_lt_iff. apply N.lt_trans.
Qed.

Lemma string_compare_refl (s : string) : String.compare s s = Eq.
Proof.
  induction s as [| x s IH]; simpl; [reflexivity |].
  rewrite ascii_compare_refl. exact IH.
Qed.

Lemma string_compare_lt_trans (s1 : string) :
  forall s2 s3,
    String.compare s1 s2 = Lt -> String.compare s2 s3 = Lt ->
    String.compare s1 s3 = Lt.
Proof.
  induction s1 as [| x1 s1 IH]; intros [| x2 s2] [| x3 s3]; simpl;
    try discriminate; try reflexivity.
  destruct (Ascii.compare x1 x2) eqn:E12; try discriminate;
    destruct (Ascii.compare x2 x3) eqn:E23; try discriminate; intros H12 H23.
  - apply Ascii.compare_eq_iff in E12, E23. subst.
    rewrite ascii_compare_refl. eapply IH; eassumption.
  - apply Ascii.compare_eq_iff in E12. subst. rewrite E23. reflexivity.
  - apply Ascii.compare_eq_iff in E23. subst. rewrite E12. reflexivity.
  - rewrite (ascii_compare_lt_trans _ _ _ E12 E23). reflexivity.
Qed.

Lemma string_ltb_lt (s1 s2 : string) :
  String.ltb s1 s2 = true <-> String.compare s1 s2 = Lt.
Proof.
  unfold String.ltb. destruct (String.compare s1 s2); split; congruence.
Qed.

Lemma string_ltb_irrefl (s : string) : String.ltb s s = false.
Proof. unfold String.ltb. rewrite string_compare_refl. reflexivity. Qed.

Lemma string_ltb_asym (s1 s2 : string) :
  String.ltb s1 s2 = true -> String.ltb s2 s1 = false.
Proof.
  unfold String.ltb. rewrite (String.compare_antisym s1 s2).
  destruct (String.compare s2 s1); simpl; congruence.
Qed.

Lemma string_ltb_trans (s1 s2 s3 : string) :
  String.ltb s1 s2 = true -> String.ltb s2 s3 = true ->
  String.ltb s1 s3 = true.
Proof. rewrite !string_ltb_lt. apply string_compare_lt_trans. Qed.

Lemma string_ltb_connex (s1 s2 : string) :
  String.ltb s1 s2 = false -> String.ltb s2 s1 = false -> s1 = s2.
Proof.
  unfold String.ltb. rewrite (String.compare_antisym s1 s2).
  destruct (String.compare s2 s1) eqn:E; simpl; try discriminate.
  intros _ _. symmetry. apply String.compare_eq_iff. exact E.
Qed.

(** ** Characterisation of [operator==] *)

Lemma op_eq_1s_true_iff (k1 k2 : map_key_1s.t) :
  map_key_1s.op_eq k1 k2 = true <->
  map_key_1s.c k1 = map_key_1s.c k2 /\ map_key_1s.a k1 = map_key_1s.a k2.
Proof.
  unfold map_key_1s.op_eq.
  destruct (Z.eqb_spec (map_key_1s.c k1) (map_key_1s.c k2)) as [Hc | Hc]; simpl.
  - rewrite String.eqb_eq. tauto.
  - split; [discriminate | tauto].
Qed.

Lemma op_eq_2s_true_iff (k1 k2 : map_key_2s.t) :
  map_key_2s.op_eq k1 k2 = true <->
  map_key_2s.c k1 = map_key_2s.c k2 /\
  map_key_2s.a k1 = map_key_2s.a k2 /\ map_key_2s.b k1 = map_key_2s.b k2.
Proof.
  unfold map_key_2s.op_eq.
  destruct (Z.eqb_spec (map_key_2s.c k1) (map_key_2s.c k2)) as [Hc | Hc]; simpl.
  - rewrite andb_true_iff, !String.eqb_eq. tauto.
  - split; [discriminate | tauto].
Qed.

(** [operator==] decides Leibniz equality of the keys. *)
Lemma op_eq_1s_leibniz (k1 k2 : map_key_1s.t) :
  map_key_1s.op_eq k1 k2 = true <-> k1 = k2.
Proof.
  rewrite op_eq_1s_true_iff. destruct k1, k2; simpl.
  split; [intros [-> ->]; reflexivity | intros [= -> ->]; auto].
Qed.

Lemma op_eq_2s_leibniz (k1 k2 : map_key_2s.t) :
  map_key_2s.op_eq k1 k2 = true <-> k1 = k2.
Proof.
  rewrite op_eq_2s_true_iff. destruct k1, k2; simpl.
  split; [intros (-> & -> & ->); reflexivity | intros [= -> -> ->]; auto].
Qed.

(** C1: for [map_key_1s], [k1 == k2] is true exactly when the handle
    pointers [c] are the same address and the strings [a] are equal; two
    keys with equal strings and distinct handles compare unequal. *)
Theorem map_key_1s_eq_spec :
  (forall k1 k2 : map_key_1s.t,
      map_key_1s.op_eq k1 k2 = true <->
      map_key_1s.c k1 = map_key_1s.c k2 /\ map_key_1s.a k1 = map_key_1s.a k2)
  /\
  (forall k1 k2 : map_key_1s.t,
      map_key_1s.a k1 = map_key_1s.a k2 ->
      map_key_1s.c k1 <> map_key_1s.c k2 ->
      map_key_1s.op_eq k1 k2 = false).
Proof.
  split.
  - exact op_eq_1s_true_iff.
  - intros k1 k2 _ Hc.
    destruct (map_key_1s.op_eq k1 k2) eqn:E; [| reflexivity].
    apply op_eq_1s_true_iff in E. destruct E as [E _]. contradiction.
Qed.

(** The example of the spec run through [map_key_1s_eq_spec]: a key
    equals one with the same name and handle, and differs from one with
    another handle. *)
Lemma map_key_1s_eq_spec_witness :
  map_key_1s.op_eq (map_key_1s.mk "signal_x" 4096)
                   (map_key_1s.mk "signal_x" 4096) = true /\
  map_key_1s.op_eq (map_key_1s.mk "signal_x" 4096)
                   (map_key_1s.mk "signal_x" 8192) = false.
Proof.
  split.
  - apply (proj1 map_key_1s_eq_spec). simpl. split; reflexivity.
  - apply (proj2 map_key_1s_eq_spec); simpl; [reflexivity | lia].
Defined.

(** The three comparisons of the spec's example, evaluated: handles [H1]
    and [H2] are the addresses 4096 and 8192. *)
Example map_key_1s_spec_example :
  map_key_1s.op_eq (map_key_1s.mk "signal_x" 4096)
                   (map_key_1s.mk "signal_x" 4096) = true /\
  map_key_1s.op_eq (map_key_1s.mk "signal_x" 4096)
                   (map_key_1s.mk "signal_x" 8192) = false /\
  map_key_1s.op_eq (map_key_1s.mk "signal_x" 4096)
                   (map_key_1s.mk "signal_y" 4096) = false.
Proof. repeat split; reflexivity. Qed.

(** C2: for [map_key_2s], [k1 == k2] is true exactly when the handle
    pointers [c] are the same address and both strings agree,
    [k1.a == k2.a] and [k1.b == k2.b]. *)
Theorem map_key_2s_eq_spec (k1 k2 : map_key_2s.t) :
  map_key_2s.op_eq k1 k2 = true <->
  map_key_2s.c k1 = map_key_2s.c k2 /\
  map_key_2s.a k1 = map_key_2s.a k2 /\ map_key_2s.b k1 = map_key_2s.b k2.
Proof. exact (op_eq_2s_true_iff k1 k2). Qed.

(** C9: for each key class, [operator==] is an equivalence relation:
    reflexive, symmetric and transitive. *)
Theorem op_eq_equivalence : Equivalence eq_1s /\ Equivalence eq_2s.
Proof.
  split; split.
  - intros k. apply op_eq_1s_leibniz. reflexivity.
  - intros k1 k2 H. apply op_eq_1s_leibniz. apply op_eq_1s_leibniz in H.
    congruence.
  - intros k1 k2 k3 H12 H23. apply op_eq_1s_leibniz.
    apply op_eq_1s_leibniz in H12, H23. congruence.
  - intros k. apply op_eq_2s_leibniz. reflexivity.
  - intros k1 k2 H. apply op_eq_2s_leibniz. apply op_eq_2s_leibniz in H.
    congruence.
  - intros k1 k2 k3 H12 H23. apply op_eq_2s_leibniz.
    apply op_eq_2s_leibniz in H12, H23. congruence.
Qed.

(** ** Hashing *)

(** C3: for keys of one class, [k1 == k2] implies that [pair_hash] gives
    both the same hash value. *)
Theorem pair_hash_respects_eq (hash_string : string -> Z) :
  (forall k1 k2 : map_key_1s.t,
      map_key_1s.op_eq k1 k2 = true ->
      pair_hash.on_1s hash_string k1 = pair_hash.on_1s hash_string k2)
  /\
  (forall k1 k2 : map_key_2s.t,
      map_key_2s.op_eq k1 k2 = true ->
      pair_hash.on_2s hash_string k1 = pair_hash.on_2s hash_string k2).
Proof.
  split; intros k1 k2 H.
  - apply op_eq_1s_true_iff in H. destruct H as [Hc Ha].
    unfold pair_hash.on_1s. rewrite Hc, Ha. reflexivity.
  - apply op_eq_2s_true_iff in H. destruct H as (Hc & Ha & Hb).
    unfold pair_hash.on_2s. rewrite Hc, Ha, Hb. reflexivity.
Qed.

Lemma pair_hash_respects_eq_witness :
  pair_hash.on_1s length_hash (map_key_1s.mk "signal_x" 4096) =
  pair_hash.on_1s length_hash (map_key_1s.mk "signal_x" 4096)
  /\
  pair_hash.on_2s length_hash (map_key_2s.mk "block" "gain" 4096) =
  pair_hash.on_2s length_hash (map_key_2s.mk "block" "gain" 4096).
Proof.
  split.
  - apply (proj1 (pair_hash_respects_eq length_hash)). reflexivity.
  - apply (proj2 (pair_hash_respects_eq length_hash)). reflexivity.
Defined.

(** ** Ordering *)

Create HintDb string_order.
#[local] Hint Resolve string_ltb_irrefl string_ltb_asym string_ltb_trans
  : string_order.

(** Case analysis on every comparison of addresses in sight. *)
Ltac split_addresses :=
  repeat match goal with
         | |- context [?x <? ?y] => destruct (Z.ltb_spec x y)
         | H : context [?x <? ?y] |- _ => destruct (Z.ltb_spec x y)
         end;
  try discriminate; try lia.

(** Two strings neither of which is below the other are the same string. *)
Ltac merge_strings :=
  repeat match goal with
         | H1 : String.ltb ?s ?s' = false, H2 : String.ltb ?s' ?s = false |- _ =>
             pose proof (string_ltb_connex s s' H1 H2); subst s'; clear H1 H2
         end.

(** Case analysis on every comparison of strings in sight. *)
Ltac split_strings :=
  repeat match goal with
         | |- context [String.ltb ?x ?y] =>
             destruct (String.ltb x y) eqn:?
         | H : context [if String.ltb ?x ?y then _ else _] |- _ =>
             destruct (String.ltb x y) eqn:?
         end.

Lemma string_ltb_asym_false (s1 s2 : string) :
  String.ltb s1 s2 = true -> String.ltb s2 s1 = true -> False.
Proof. intros H1 H2. apply string_ltb_asym in H1. congruence. Qed.

Lemma Compare_1s_swo : strict_weak_order Compare.on_1s map_key_1s.op_eq.
Proof.
  split.
  - intros [a c]. unfold Compare.on_1s; simpl.
    rewrite Z.ltb_irrefl. apply string_ltb_irrefl.
  - intros [a1 c1] [a2 c2]. unfold Compare.on_1s; simpl.
    split_addresses. auto with string_order.
  - intros [a1 c1] [a2 c2] [a3 c3]. unfold Compare.on_1s; simpl.
    split_addresses. eauto with string_order.
  - intros k1 k2. rewrite op_eq_1s_true_iff.
    destruct k1 as [a1 c1], k2 as [a2 c2]. unfold Compare.on_1s; simpl.
    split.
    + intros [H1 H2]. split_addresses. merge_strings. split; [lia | reflexivity].
    + intros [-> ->]. rewrite Z.ltb_irrefl, string_ltb_irrefl. auto.
Qed.

Lemma Compare_2s_swo : strict_weak_order Compare.on_2s map_key_2s.op_eq.
Proof.
  split.
  - intros [a b c]. unfold Compare.on_2s; simpl.
    rewrite Z.ltb_irrefl, !string_ltb_irrefl. reflexivity.
  - intros [a1 b1 c1] [a2 b2 c2]. unfold Compare.on_2s; simpl.
    split_addresses.
    split_strings; try congruence; auto with string_order;
      exfalso; eauto using string_ltb_asym_false.
  - intros [a1 b1 c1] [a2 b2 c2] [a3 b3 c3]. unfold Compare.on_2s; simpl.
    split_addresses. intros H12 H23.
    destruct (String.ltb a1 a2) eqn:E12.
    + destruct (String.ltb a2 a3) eqn:E23.
      * rewrite (string_ltb_trans _ _ _ E12 E23). reflexivity.
      * destruct (String.ltb a3 a2) eqn:E32; [discriminate |].
        merge_strings. rewrite E12. reflexivity.
    + destruct (String.ltb a2 a1) eqn:E21; [discriminate |].
      merge_strings.
      destruct (String.ltb a1 a3) eqn:E13; [reflexivity |].
      destruct (String.ltb a3 a1) eqn:E31; [discriminate |].
      eauto with string_order.
  - intros k1 k2. rewrite op_eq_2s_true_iff.
    destruct k1 as [a1 b1 c1], k2 as [a2 b2 c2]. unfold Compare.on_2s; simpl.
    split.
    + intros [H1 H2]. split_addresses.
      destruct (String.ltb a1 a2) eqn:E12; [discriminate |].
      destruct (String.ltb a2 a1) eqn:E21; [discriminate |].
      merge_strings. repeat split; lia || reflexivity.
    + intros (-> & -> & ->). rewrite Z.ltb_irrefl, !string_ltb_irrefl. auto.
Qed.

(** C5: for each key class, [Compare] is a strict weak ordering
    (irreflexive, asymmetric, transitive), and two keys are equivalent
    under it, neither ordered before the other, exactly when [operator==]
    holds of them. *)
Theorem Compare_strict_weak_order :
  strict_weak_order Compare.on_1s map_key_1s.op_eq /\
  strict_weak_order Compare.on_2s map_key_2s.op_eq.
Proof. split; [exact Compare_1s_swo | exact Compare_2s_swo]. Qed.

(** ** The operators on references *)

Section StoreLemmas.
Context {T : Type}.
Implicit Types (s : gmap Store.loc T) (l : Store.loc).

Lemma load_run {B : Type} (field : T -> B) l s o :
  s !! l = Some o -> Store.load field l s = Some (field o, s).
Proof. intros H. unfold Store.load. rewrite H. reflexivity. Qed.

Lemma bind_run {A B : Type} (m : Store.M T A) (f : A -> Store.M T B) s x s' :
  m s = Some (x, s') -> Store.bind m f s = f x s'.
Proof. intros H. unfold Store.bind. rewrite H. reflexivity. Qed.

End StoreLemmas.

(** One step of a computation that starts with a read of a live object. *)
Ltac run_load :=
  match goal with
  | H : ?s !! ?l = Some ?o |- context [Store.bind (Store.load ?f ?l) ?k ?s] =>
      rewrite (bind_run (Store.load f l) k s (f o) s (load_run f l s o H))
  end.

Lemma op_eq_1s_run (s : gmap Store.loc map_key_1s.t) (this other : Store.loc)
      (k1 k2 : map_key_1s.t) :
  s !! this = Some k1 -> s !! other = Some k2 ->
  map_key_1s_ref.op_eq this other s = Some (map_key_1s.op_eq k1 k2, s).
Proof.
  intros H1 H2. unfold map_key_1s_ref.op_eq, map_key_1s.op_eq.
  do 2 run_load.
  destruct (negb (map_key_1s.c k1 =? map_key_1s.c k2)); [reflexivity |].
  do 2 run_load. reflexivity.
Qed.

Lemma op_eq_2s_run (s : gmap Store.loc map_key_2s.t) (this other : Store.loc)
      (k1 k2 : map_key_2s.t) :
  s !! this = Some k1 -> s !! other = Some k2 ->
  map_key_2s_ref.op_eq this other s = Some (map_key_2s.op_eq k1 k2, s).
Proof.
  intros H1 H2. unfold map_key_2s_ref.op_eq, map_key_2s.op_eq.
  do 2 run_load.
  destruct (negb (map_key_2s.c k1 =? map_key_2s.c k2)); [reflexivity |].
  do 2 run_load.
  destruct (String.eqb (map_key_2s.a k1) (map_key_2s.a k2)); [| reflexivity].
  do 2 run_load. reflexivity.
Qed.

Lemma pair_hash_1s_range (hash_string : string -> Z) (k : map_key_1s.t) :
  0 <= pair_hash.on_1s hash_string k < size_t_modulus.
Proof.
  unfold pair_hash.on_1s, pair_hash.hash_handle.
  apply lxor_size_t_range; apply to_size_t_range.
Qed.

Lemma pair_hash_2s_range (hash_string : string -> Z) (k : map_key_2s.t) :
  0 <= pair_hash.on_2s hash_string k < size_t_modulus.
Proof.
  unfold pair_hash.on_2s, pair_hash.hash_handle.
  repeat apply lxor_size_t_range; apply to_size_t_range.
Qed.

(** C10: evaluating [operator==] leaves both operands as they were: after
    the comparison the store holds at [this] and at [other] the keys it
    held before, with every field (name string(s) and handle) the same;
    this also when both references are to one object. *)
Theorem op_eq_leaves_operands_unchanged :
  (forall (s : gmap Store.loc map_key_1s.t) (this other : Store.loc)
          (k1 k2 : map_key_1s.t),
      s !! this = Some k1 -> s !! other = Some k2 ->
      exists (r : bool) (s' : gmap Store.loc map_key_1s.t),
        map_key_1s_ref.op_eq this other s = Some (r, s') /\
        s' !! this = Some k1 /\ s' !! other = Some k2 /\ s' = s)
  /\
  (forall (s : gmap Store.loc map_key_2s.t) (this other : Store.loc)
          (k1 k2 : map_key_2s.t),
      s !! this = Some k1 -> s !! other = Some k2 ->
      exists (r : bool) (s' : gmap Store.loc map_key_2s.t),
        map_key_2s_ref.op_eq this other s = Some (r, s') /\
        s' !! this = Some k1 /\ s' !! other = Some k2 /\ s' = s).
Proof.
  split; intros s this other k1 k2 H1 H2.
  - exists (map_key_1s.op_eq k1 k2), s.
    rewrite (op_eq_1s_run s this other k1 k2 H1 H2). auto.
  - exists (map_key_2s.op_eq k1 k2), s.
    rewrite (op_eq_2s_run s this other k1 k2 H1 H2). auto.
Qed.

(** C7: equality, hashing and ordering on both key classes are total and
    pure: on every pair of references to live keys each of them returns a
    value (the hash a [std::size_t]), none fails, and each leaves the
    store as it found it. *)
Theorem key_operations_total_pure (hash_string : string -> Z) :
  (forall (s : gmap Store.loc map_key_1s.t) (l1 l2 : Store.loc)
          (k1 k2 : map_key_1s.t),
      s !! l1 = Some k1 -> s !! l2 = Some k2 ->
      map_key_1s_ref.op_eq l1 l2 s = Some (map_key_1s.op_eq k1 k2, s) /\
      map_key_1s_ref.pair_hash hash_string l1 s =
        Some (pair_hash.on_1s hash_string k1, s) /\
      0 <= pair_hash.on_1s hash_string k1 < size_t_modulus /\
      map_key_1s_ref.Compare l1 l2 s = Some (Compare.on_1s k1 k2, s))
  /\
  (forall (s : gmap Store.loc map_key_2s.t) (l1 l2 : Store.loc)
          (k1 k2 : map_key_2s.t),
      s !! l1 = Some k1 -> s !! l2 = Some k2 ->
      map_key_2s_ref.op_eq l1 l2 s = Some (map_key_2s.op_eq k1 k2, s) /\
      map_key_2s_ref.pair_hash hash_string l1 s =
        Some (pair_hash.on_2s hash_string k1, s) /\
      0 <= pair_hash.on_2s hash_string k1 < size_t_modulus /\
      map_key_2s_ref.Compare l1 l2 s = Some (Compare.on_2s k1 k2, s)).
Proof.
  split; intros s l1 l2 k1 k2 H1 H2.
  - split; [apply op_eq_1s_run; assumption |].
    split; [unfold map_key_1s_ref.pair_hash; run_load; reflexivity |].
    split; [apply pair_hash_1s_range |].
    unfold map_key_1s_ref.Compare. do 2 run_load. reflexivity.
  - split; [apply op_eq_2s_run; assumption |].
    split; [unfold map_key_2s_ref.pair_hash; run_load; reflexivity |].
    split; [apply pair_hash_2s_range |].
    unfold map_key_2s_ref.Compare. do 2 run_load. reflexivity.
Qed.

Lemma op_eq_leaves_operands_unchanged_witness :
  (exists (r : bool) (s' : gmap Store.loc map_key_1s.t),
      map_key_1s_ref.op_eq 1%positive 2%positive example_store_1s
        = Some (r, s') /\
      s' !! 1%positive = Some (map_key_1s.mk "signal_x" 4096) /\
      s' !! 2%positive = Some (map_key_1s.mk "signal_x" 8192) /\
      s' = example_store_1s)
  /\
  (exists (r : bool) (s' : gmap Store.loc map_key_2s.t),
      map_key_2s_ref.op_eq 1%positive 1%positive example_store_2s
        = Some (r, s') /\
      s' !! 1%positive = Some (map_key_2s.mk "block" "gain" 4096) /\
      s' !! 1%positive = Some (map_key_2s.mk "block" "gain" 4096) /\
      s' = example_store_2s).
Proof.
  split.
  - apply (proj1 op_eq_leaves_operands_unchanged); reflexivity.
  - apply (proj2 op_eq_leaves_operands_unchanged); reflexivity.
Defined.

Lemma key_operations_total_pure_witness :
  (map_key_1s_ref.op_eq 1%positive 2%positive example_store_1s
     = Some (false, example_store_1s) /\
   map_key_1s_ref.pair_hash length_hash 1%positive example_store_1s
     = Some (4104, example_store_1s) /\
   0 <= 4104 < size_t_modulus /\
   map_key_1s_ref.Compare 1%positive 2%positive example_store_1s
     = Some (true, example_store_1s))
  /\
  (map_key_2s_ref.op_eq 1%positive 1%positive example_store_2s
     = Some (true, example_store_2s) /\
   map_key_2s_ref.pair_hash length_hash 1%positive example_store_2s
     = Some (4097, example_store_2s) /\
   0 <= 4097 < size_t_modulus /\
   map_key_2s_ref.Compare 1%positive 1%positive example_store_2s
     = Some (false, example_store_2s)).
Proof.
  split.
  - exact (proj1 (key_operations_total_pure length_hash)
             example_store_1s 1%positive 2%positive
             (map_key_1s.mk "signal_x" 4096) (map_key_1s.mk "signal_x" 8192)
             eq_refl eq_refl).
  - exact (proj2 (key_operations_total_pure length_hash)
             example_store_2s 1%positive 1%positive
             (map_key_2s.mk "block" "gain" 4096)
             (map_key_2s.mk "block" "gain" 4096)
             eq_refl eq_refl).
Defined.

(** ** Round trip through the metadata records *)

Lemma fold_push_back {A : Type} (xs acc : list A) :
  fold_left push_back xs acc = acc ++ xs.
Proof.
  revert acc. induction xs as [| x xs IH]; intros acc; simpl.
  - rewrite app_nil_r. reflexivity.
  - rewrite IH. unfold push_back. rewrite <- app_assoc. reflexivity.
Qed.

Lemma filled_id {A : Type} (xs : list A) : filled xs = xs.
Proof. unfold filled. apply fold_push_back. Qed.

(** C6: a [ModelInfo] built from a model name and from sequences of model
    parameters, block parameters and signals gives back, on reading each
    of its three sequences, the elements supplied, in the order of
    insertion, each element with all its fields (names and the nested
    [DataType]) as supplied. *)
Theorem ModelInfo_round_trip
        (name : string) (mps : list ModelParam.t)
        (bps : list BlockParam.t) (sigs : list Signal.t) :
  let mi := {| model_name := name;
               model_params := filled mps;
               block_params := filled bps;
               signals := filled sigs |} in
  model_name mi = name /\
  model_params mi = mps /\ block_params mi = bps /\ signals mi = sigs /\
  (forall i, at_index (model_params mi) i = at_index mps i) /\
  (forall i, at_index (block_params mi) i = at_index bps i) /\
  (forall i, at_index (signals mi) i = at_index sigs i) /\
  ModelInfo_data_types mi =
    map ModelParam.data_type mps ++ map BlockParam.data_type bps
    ++ map Signal.data_type sigs.
Proof.
  unfold ModelInfo_data_types. simpl. rewrite !filled_id.
  repeat split; reflexivity.
Qed.

(** ** How the two key classes relate *)

(** X1: the two operators agree on the members they share.  Two
    [map_key_2s] keys are equal exactly when the [map_key_1s] keys made
    of their [a] and [c] are equal and their [b]s are equal; and two
    [map_key_1s] keys are equal exactly when the [map_key_2s] keys that
    extend them by one common second string are. *)
Theorem op_eq_2s_extends_1s :
  (forall k1 k2 : map_key_2s.t,
      map_key_2s.op_eq k1 k2 =
      map_key_1s.op_eq (map_key_1s.mk (map_key_2s.a k1) (map_key_2s.c k1))
                       (map_key_1s.mk (map_key_2s.a k2) (map_key_2s.c k2))
      && String.eqb (map_key_2s.b k1) (map_key_2s.b k2))
  /\
  (forall (k1 k2 : map_key_1s.t) (b : string),
      map_key_1s.op_eq k1 k2 =
      map_key_2s.op_eq (map_key_2s.mk (map_key_1s.a k1) b (map_key_1s.c k1))
                       (map_key_2s.mk (map_key_1s.a k2) b (map_key_1s.c k2))).
Proof.
  split.
  - intros k1 k2. unfold map_key_2s.op_eq, map_key_1s.op_eq; simpl.
    destruct (negb (map_key_2s.c k1 =? map_key_2s.c k2)); reflexivity.
  - intros k1 k2 b. unfold map_key_2s.op_eq, map_key_1s.op_eq; simpl.
    destruct (negb (map_key_1s.c k1 =? map_key_1s.c k2)); [reflexivity |].
    rewrite String.eqb_refl, andb_true_r. reflexivity.
Qed.

(** ** What a comparison costs *)

(** X2: [operator==] compares strings only when the handles are the same
    address.  Counted by the evaluation itself (one per call of
    [std::string]'s [operator==], the right operand of [&&] evaluated
    only after a true left operand): with distinct handles no string
    comparison is made; with one handle [map_key_1s] makes exactly one,
    and [map_key_2s] makes one when the [a]s differ and two when they
    agree.  The value computed is that of [operator==]. *)
Theorem op_eq_string_comparisons :
  (forall k1 k2 : map_key_1s.t,
      fst (map_key_1s_counted.op_eq k1 k2) = map_key_1s.op_eq k1 k2 /\
      (snd (map_key_1s_counted.op_eq k1 k2) = 0%nat <->
       map_key_1s.c k1 <> map_key_1s.c k2) /\
      (snd (map_key_1s_counted.op_eq k1 k2) = 1%nat <->
       map_key_1s.c k1 = map_key_1s.c k2))
  /\
  (forall k1 k2 : map_key_2s.t,
      fst (map_key_2s_counted.op_eq k1 k2) = map_key_2s.op_eq k1 k2 /\
      (snd (map_key_2s_counted.op_eq k1 k2) = 0%nat <->
       map_key_2s.c k1 <> map_key_2s.c k2) /\
      (snd (map_key_2s_counted.op_eq k1 k2) = 1%nat <->
       map_key_2s.c k1 = map_key_2s.c k2 /\
       map_key_2s.a k1 <> map_key_2s.a k2) /\
      (snd (map_key_2s_counted.op_eq k1 k2) = 2%nat <->
       map_key_2s.c k1 = map_key_2s.c k2 /\
       map_key_2s.a k1 = map_key_2s.a k2)).
Proof.
  split; intros k1 k2.
  - unfold map_key_1s_counted.op_eq, map_key_1s.op_eq, Cost.ptr_ne.
    destruct (Z.eqb_spec (map_key_1s.c k1) (map_key_1s.c k2)) as [Hc | Hc];
      simpl; repeat split; intros; congruence.
  - unfold map_key_2s_counted.op_eq, map_key_2s.op_eq, Cost.ptr_ne,
      Cost.and_then.
    destruct (Z.eqb_spec (map_key_2s.c k1) (map_key_2s.c k2)) as [Hc | Hc];
      simpl.
    + destruct (String.eqb_spec (map_key_2s.a k1) (map_key_2s.a k2))
        as [Ha | Ha]; simpl; repeat split; intros;
        try congruence; tauto.
    + repeat split; intros; try congruence; tauto.
Qed.
